(** * redux-box: the module reducer builder and the store assembler

    A shallow embedding of [dist/reducer.js] (getReducer) and
    [src/createStore.js] (createStore, rootSaga), with the objects the two
    files share kept in an explicit store: the caller's handler maps are
    mutated in place by getReducer and read again at every dispatch, so
    they live in a heap and are passed by location. *)

From stdpp Require Import gmap strings list fin_maps.
From Stdlib Require Import ZArith.

Set Warnings "-register-all".

Open Scope string_scope.
Open Scope list_scope.

(** ** JavaScript data *)

Definition loc := positive.

Inductive prim :=
  | PUndefined
  | PNull
  | PBool (b : bool)
  | PNum (n : Z)
  | PStr (s : string).

(** The contents of a plain state object or array, nested by value. *)
Inductive data :=
  | DPrim (p : prim)
  | DArr (items : list data)
  | DObj (fields : list (string * data)).

(** What a variable holds: a primitive, or a reference to an object. Two
    references are the same object exactly when their locations agree. *)
Inductive value :=
  | VPrim (p : prim)
  | VRef (l : loc).

Definition undefined : value := VPrim PUndefined.

(** An action is [{ type, ...payload }]; [payload] holds the other fields. *)
Record action := Action { type : string; payload : data }.

Inductive error :=
  | TypeError (msg : string)
  | Error (msg : string)
  | Thrown (d : data).

Inductive log_level := LevelLog | LevelError.

(** One call of [console.log] / [console.error] with a message and an error. *)
Record log_entry := LogEntry {
  level : log_level;
  message : string;
  detail : error
}.

(** ** Handlers

    A handler is called as [method(draft_state, action)] on an immer draft.
    Whatever it returns is dropped by the recipe that wraps it, so a run of a
    handler is described by what it did to the draft, what it wrote to the
    console, and whether it threw.

    immer marks a draft as modified when a write changes a value, and goes
    by that mark alone. [Untouched] is a run that leaves the draft unmarked:
    no write at all, or only writes of the value that was already there.
    [Mutated d] is a run that marks the draft, with [d] what the draft holds
    at the end (which may be what it held at the start, after a write and a
    write back). *)

Inductive draft_effect :=
  | Untouched
  | Mutated (d : data)
  | Throws (e : error).

Record handler_run := HandlerRun {
  diagnostics : list log_entry;
  effect : draft_effect
}.

Definition handler := data → action → handler_run.

(** ** The store of shared objects *)

Record world := World {
  objects : gmap loc data;
  handler_maps : gmap loc (gmap string handler);
  console : list log_entry
}.

Definition set_objects (f : gmap loc data → gmap loc data) (w : world) : world :=
  World (f (objects w)) (handler_maps w) (console w).

Definition set_handler_maps
    (f : gmap loc (gmap string handler) → gmap loc (gmap string handler))
    (w : world) : world :=
  World (objects w) (f (handler_maps w)) (console w).

Definition set_console (f : list log_entry → list log_entry) (w : world) : world :=
  World (objects w) (handler_maps w) (f (console w)).

(** The plain data a value stands for in a given store; deep equality of two
    states is equality of their snapshots. *)
Definition snapshot (w : world) (v : value) : option data :=
  match v with
  | VPrim p => Some (DPrim p)
  | VRef l => objects w !! l
  end.

(** ** Computations that may throw and that act on the store *)

Inductive completion (A : Type) :=
  | Normal (a : A)
  | Throw (e : error).
Arguments Normal {A} a.
Arguments Throw {A} e.

Definition M (S A : Type) : Type := S → completion A * S.

Definition ret {S A} (a : A) : M S A := λ s, (Normal a, s).

Definition throw {S A} (e : error) : M S A := λ s, (Throw e, s).

Definition bind {S A B} (m : M S A) (k : A → M S B) : M S B :=
  λ s, match m s with
       | (Normal a, s') => k a s'
       | (Throw e, s') => (Throw e, s')
       end.

Definition modify {S} (f : S → S) : M S unit := λ s, (Normal tt, f s).

Notation "'let*' x ':=' m 'in' k" := (bind m (λ x, k))
  (at level 10, x name, m at level 100, k at level 200, only parsing).
Notation "'let*' ' p ':=' m 'in' k" := (bind m (λ x, match x with p => k end))
  (at level 10, p pattern, m at level 100, k at level 200, only parsing).

(** ** immer's [produce], as the reducer calls it

    [produce(base, recipe)] hands [recipe] a draft of [base]. When the recipe
    returns [undefined] (the reducer's recipe always does), the result is
    [base] itself if the draft is not marked as modified, and a freshly
    allocated object holding the draft's final contents if it is; [base] is
    left as it was. An exception of the recipe leaves [produce] as it is. A
    primitive base is handed to the recipe as it is and comes back as it is.
    A location that holds no plain data stands for a value immer refuses to
    draft. *)

Definition log_all (entries : list log_entry) : M world unit :=
  modify (set_console (λ c, c ++ entries)).

Definition finalize (base : value) (e : draft_effect) : M world value :=
  match e with
  | Untouched => ret base
  | Mutated d =>
      match base with
      | VPrim _ => ret base
      | VRef _ =>
          λ w, let l' := fresh (dom (objects w)) in
               (Normal (VRef l'), set_objects <[l' := d]> w)
      end
  | Throws err => throw err
  end.

Definition produce (base : value) (recipe : data → handler_run) : M world value :=
  λ w, match snapshot w base with
       | Some d =>
           let run := recipe d in
           (let* _ := log_all (diagnostics run) in finalize base (effect run)) w
       | None => (Throw (Error "produce: base is not draftable"), w)
       end.

(** ** dist/reducer.js *)

(** The local variables of one call of the injected reset function: its
    parameter [state] starts out bound to the draft. *)
Inductive binding :=
  | TheDraft
  | Other (v : value).

Record frame := Frame { local_state : binding; local_action : action }.

(** [name + '__RESET__'], with [name] possibly [undefined]. *)
Definition to_string (name : option string) : string :=
  match name with
  | Some s => s
  | None => "undefined"
  end.

Definition reset_key (name : option string) : string :=
  to_string name +:+ "__RESET__".

(** [state = initialState;] rebinds the parameter and cannot throw. *)
Definition reset_try (initialState : value) (fr : frame) : completion frame :=
  Normal (Frame (Other initialState) (local_action fr)).

(** [function (state, action) { try { state = initialState; }
     catch (err) { console.log('WARNING: ...' + name, err); } }] *)
Definition reset_handler (initialState : value) (name : option string) : handler :=
  λ draft_state action,
    match reset_try initialState (Frame TheDraft action) with
    | Normal _ => HandlerRun [] Untouched
    | Throw err =>
        HandlerRun
          [LogEntry LevelLog
             ("WARNING: __RESET__ action failed for module " +:+ to_string name) err]
          Untouched
    end.

Definition reducer := value → action → M world value.

(** [var state = arguments[0] !== undefined ? arguments[0] : initialState] *)
Definition default_state (initialState arg0 : value) : value :=
  match arg0 with
  | VPrim PUndefined => initialState
  | _ => arg0
  end.

(** The entry the handler map itself has at a key, in the live map. *)
Definition lookup_method (w : world) (actionList : loc) (ty : string) : option handler :=
  handler_maps w !! actionList ≫= (.!! ty).

(** What a handler map inherits. The map is a plain object, so a property
    read that finds no entry of the map goes on to [Object.prototype]. The
    reducer calls what it finds as [method(draft_state, action)], a plain
    call in strict mode, so the inherited functions run without a receiver:
    - [__proto__] is the prototype object itself, which cannot be called;
    - [constructor] ([Object]) and [toString] return a value and touch
      nothing;
    - [isPrototypeOf] returns [false] for an argument that is no object and
      needs its receiver otherwise;
    - the others convert their receiver to an object first, which fails. *)
Inductive inherited :=
  | PrototypeObject
  | IgnoresReceiver
  | ObjectsNeedReceiver
  | NeedsReceiver.

Definition Object_prototype : gmap string inherited :=
  list_to_map
    [("__proto__", PrototypeObject);
     ("constructor", IgnoresReceiver);
     ("toString", IgnoresReceiver);
     ("isPrototypeOf", ObjectsNeedReceiver);
     ("toLocaleString", NeedsReceiver);
     ("valueOf", NeedsReceiver);
     ("hasOwnProperty", NeedsReceiver);
     ("propertyIsEnumerable", NeedsReceiver);
     ("__defineGetter__", NeedsReceiver);
     ("__defineSetter__", NeedsReceiver);
     ("__lookupGetter__", NeedsReceiver);
     ("__lookupSetter__", NeedsReceiver)].

Arguments Object_prototype : simpl never.

Definition not_a_function : error := TypeError "method is not a function".

Definition no_receiver : error :=
  TypeError "Cannot convert undefined or null to object".

(** An inherited property called as [method(draft_state, action)]. *)
Definition call_inherited (p : inherited) : handler :=
  λ draft_state _,
    match p with
    | PrototypeObject => HandlerRun [] (Throws not_a_function)
    | IgnoresReceiver => HandlerRun [] Untouched
    | ObjectsNeedReceiver =>
        match draft_state with
        | DPrim _ => HandlerRun [] Untouched
        | _ => HandlerRun [] (Throws no_receiver)
        end
    | NeedsReceiver => HandlerRun [] (Throws no_receiver)
    end.

(** [actionList[action.type]], read from the live map at every call: the
    map's own entry, or else what the map inherits. Either is truthy. *)
Definition read_method (w : world) (actionList : loc) (ty : string) : option handler :=
  match handler_maps w !! actionList with
  | Some h =>
      match h !! ty with
      | Some method => Some method
      | None => call_inherited <$> Object_prototype !! ty
      end
  | None => None
  end.

(** The function getReducer returns; [actionList] is the location of the
    handler map it closes over. *)
Definition transition (actionList : loc) (initialState : value) : reducer :=
  λ arg0 action,
    let state := default_state initialState arg0 in
    λ w, match read_method w actionList (type action) with
         | Some method =>
             produce state (λ draft_state, method draft_state action) w
         | None => (Normal state, w)
         end.

(** [actionList[name + '__RESET__'] = function ...] writes into the caller's
    own map; on [undefined], or on anything that is not a handler map, the
    assignment raises a TypeError (the file is in strict mode). *)
Definition getReducer (actionList : option loc) (initialState : value)
    (name : option string) : M world reducer :=
  match actionList with
  | None => throw (TypeError "Cannot set property of undefined")
  | Some l =>
      λ w, match handler_maps w !! l with
           | None => (Throw (TypeError "Cannot create property"), w)
           | Some h =>
               (Normal (transition l initialState),
                set_handler_maps
                  <[l := <[reset_key name := reset_handler initialState name]> h]> w)
           end
  end.

(** ** src/createStore.js *)

(** The values that flow through the saga aggregation: [undefined], an
    effect routine (opaque to this code), or an array of such values. *)
Inductive jv :=
  | JUndefined
  | JEffect (label : string)
  | JArray (items : list jv).

(** [arr.concat(x)]: the elements of [x] when [x] is an array, [x] itself
    as one more element otherwise. *)
Definition array_concat (arr : list jv) (x : jv) : list jv :=
  match x with
  | JArray items => arr ++ items
  | _ => arr ++ [x]
  end.

Definition truthy (x : jv) : bool :=
  match x with
  | JUndefined => false
  | _ => true
  end.

(** A module object: the fields createStore reads. *)
Record module := Module_ {
  mod_state : value;
  mod_mutations : option loc;
  mod_sagas : jv;
  mod_decorateReducer : option (reducer → reducer)
}.

(** What the assembler sees: the store of the dispatch path, the module
    objects (passed by reference) and the registry. *)
Record assembly := Assembly {
  heap : world;
  module_objs : gmap loc module;
  registry : gmap string loc
}.

Definition lift {A} (m : M world A) : M assembly A :=
  λ a, let '(r, w) := m (heap a) in
       (r, Assembly w (module_objs a) (registry a)).

(** Modelled from the spec: [moduleRegistry.register] (src/moduleRegistry.js
    is not among the sources). The registry is a name -> module table used
    for bookkeeping only; a second registration under a name overwrites the
    first; the module is stored by reference and not touched. *)
Definition register (moduleName : string) (m : loc) : M assembly unit :=
  modify (λ a, Assembly (heap a) (module_objs a) (<[moduleName := m]> (registry a))).

(** [modules[moduleName]] followed by a field read; a location without a
    module object stands for [undefined]. *)
Definition read_module (l : loc) : M assembly module :=
  λ a, match module_objs a !! l with
       | Some m => (Normal m, a)
       | None => (Throw (TypeError "Cannot read property 'sagas' of undefined"), a)
       end.

(** [o[k] = v] on an object whose key order matters: an existing key keeps
    its place, a new one goes last. *)
Fixpoint assign {A} (k : string) (v : A) (o : list (string * A)) : list (string * A) :=
  match o with
  | [] => [(k, v)]
  | (k', v') :: o' =>
      if decide (k = k') then (k, v) :: o' else (k', v') :: assign k v o'
  end.

Fixpoint forEach {S A B} (f : B → A → M S B) (acc : B) (l : list A) : M S B :=
  match l with
  | [] => ret acc
  | x :: l' => let* acc' := f acc x in forEach f acc' l'
  end.

(** *** redux, as createStore uses it *)

Definition root_state := gmap string value.
Definition root_reducer := root_state → action → M world root_state.

#[global] Instance prim_eq_dec : EqDecision prim.
Proof. solve_decision. Defined.
#[global] Instance value_eq_dec : EqDecision value.
Proof. solve_decision. Defined.

(** The loop of the function [combineReducers] returns: every reducer is run
    on its own key's state; a reducer that returns [undefined] is an error.
    (The probing of the reducers that redux does once when they are combined
    is left out.) *)
Fixpoint combination (reducers : list (string * reducer)) (state : root_state)
    (action : action) (nextState : root_state) (hasChanged : bool)
    : M world (root_state * bool) :=
  match reducers with
  | [] => ret (nextState, hasChanged)
  | (key, reducer) :: rest =>
      let previousStateForKey := default undefined (state !! key) in
      let* nextStateForKey := reducer previousStateForKey action in
      if decide (nextStateForKey = undefined)
      then throw (Error "reducer returned undefined")
      else combination rest state action (<[key := nextStateForKey]> nextState)
             (hasChanged || bool_decide (nextStateForKey ≠ previousStateForKey))
  end.

Definition combineReducers (reducers : list (string * reducer)) : root_reducer :=
  λ state action,
    let* '(nextState, hasChanged) := combination reducers state action ∅ false in
    ret (if hasChanged : bool then nextState else state).

Record store := Store { currentReducer : root_reducer; currentState : root_state }.

(** [store.dispatch(action)]: [currentState = currentReducer(currentState, action)];
    an exception of the reducer reaches the caller. *)
Definition dispatch (s : store) (a : action) : M world store :=
  let* next := currentReducer s (currentState s) a in
  ret (Store (currentReducer s) next).

Definition INIT : action := Action "@@redux/INIT" (DObj []).

(** [storeCreator(reducer, preloadedState, enhancer)] dispatches INIT once. *)
Definition storeCreator (r : root_reducer) (preloadedState : root_state) : M world store :=
  dispatch (Store r preloadedState) INIT.

(** *** rootSaga

    [function* rootSaga() { try { yield all(sagas); }
       catch (err) { console.error('[ERROR] ...', err); } }]
    as a resumable routine: where it stands, what the scheduler resumes it
    with, and what it hands back. *)

Inductive saga_effect := All (routines : list jv).

Inductive gen_state := NotStarted | AtYield | Finished.

Inductive gen_input := Next | ThrowInto (err : error) | Cancel.

Inductive gen_output :=
  | Yield (e : saga_effect)
  | Return
  | Raise (err : error).

Definition rootSaga (sagas : list jv) (st : gen_state) (input : gen_input)
    (w : world) : gen_output * gen_state * world :=
  match st, input with
  | NotStarted, Next => (Yield (All sagas), AtYield, w)
  | NotStarted, ThrowInto err => (Raise err, Finished, w)
  | AtYield, Next => (Return, Finished, w)
  | AtYield, ThrowInto err =>
      (Return, Finished,
       set_console
         (λ c, c ++ [LogEntry LevelError "[ERROR] Something went wrong in rootSaga: " err])
         w)
  | Finished, Next => (Return, Finished, w)
  | Finished, ThrowInto err => (Raise err, Finished, w)
  | _, Cancel => (Return, Finished, w)
  end.

(** [sagaMiddleware.run(rootSaga)] starts the routine: it runs to its first
    yield and the scheduler takes the effect. *)
Definition run (sagas : list jv) : M world (gen_output * gen_state) :=
  λ w, let '(out, st, w') := rootSaga sagas NotStarted Next w in
       (Normal (out, st), w').

(** *** createStore *)

Record config := Config {
  cfg_reducers : list (string * reducer);
  cfg_sagas : jv;
  cfg_decorateReducer : option (root_reducer → root_reducer);
  cfg_preloadedState : option root_state
}.

(** What createStore leaves behind: the store it returns, and the routine the
    saga middleware now holds together with the [sagas] array it closed over. *)
Record assembled := Assembled {
  the_store : store;
  sagas_of : list jv;
  root_task : gen_output * gen_state
}.

(** The body of [moduleNames.forEach(moduleName => ...)]; [None] is the
    third argument getReducer is called without. *)
Definition each_module (acc : list jv * list (string * reducer)) (entry : string * loc)
    : M assembly (list jv * list (string * reducer)) :=
  let '(sagas, reducerList) := acc in
  let '(moduleName, m) := entry in
  let* _ := register moduleName m in
  let* module := read_module m in
  let sagas := array_concat sagas (mod_sagas module) in
  let* moduleReducer := lift (getReducer (mod_mutations module) (mod_state module) None) in
  let moduleReducer :=
    match mod_decorateReducer module with
    | Some decorate => decorate moduleReducer
    | None => moduleReducer
    end in
  ret (sagas, assign moduleName moduleReducer reducerList).

(** [modules] lists the entries of the [modules] object in the order of
    [Object.keys]. The middleware list and the devtools composer only feed
    the enhancer and are left out. *)
Definition createStore (modules : list (string * loc)) (config : config)
    : M assembly assembled :=
  let reducerList := cfg_reducers config in
  let* '(sagas, reducerList) := forEach each_module ([], reducerList) modules in
  let sagas :=
    if truthy (cfg_sagas config) then array_concat sagas (cfg_sagas config) else sagas in
  let combinedReducer := combineReducers reducerList in
  let combinedReducer :=
    match cfg_decorateReducer config with
    | Some decorate => decorate combinedReducer
    | None => combinedReducer
    end in
  let preloadedState := default ∅ (cfg_preloadedState config) in
  let* store := lift (storeCreator combinedReducer preloadedState) in
  let* task := lift (run sagas) in
  ret (Assembled store sagas task).

(** ** The [orders] module of the reset scenario *)

Module Orders.

(** [state.items.push(action.item)] *)
Definition push_item : handler :=
  λ draft_state action,
    match draft_state, payload action with
    | DObj [("items", DArr xs)], DObj [("item", x)] =>
        HandlerRun [] (Mutated (DObj [("items", DArr (xs ++ [x]))]))
    | _, _ => HandlerRun [] (Throws (TypeError "Cannot read property 'push'"))
    end.

Definition empty_items : data := DObj [("items", DArr [])].
Definition one_item : data := DObj [("items", DArr [DPrim (PStr "x")])].

Definition ADD_ITEM : action := Action "ADD_ITEM" (DObj [("item", DPrim (PStr "x"))]).
Definition RESET : action := Action "orders__RESET__" (DObj []).

(** The initial state object at location 1, the handler map at location 1
    of the handler maps. *)
Definition w0 : world :=
  World {[ 1%positive := empty_items ]}
        {[ 1%positive := {[ "ADD_ITEM" := push_item ]} ]}
        [].

(** Build the reducer, dispatch ADD_ITEM on the initial state, then the
    reset action on the result. *)
Definition add_then_reset : M world value :=
  let* r := getReducer (Some 1%positive) (VRef 1%positive) (Some "orders") in
  let* s1 := r undefined ADD_ITEM in
  r s1 RESET.

(** The same module handed to createStore under the name [orders]. *)
Definition orders : module :=
  Module_ (VRef 1%positive) (Some 1%positive) (JArray []) None.

Definition a0 : assembly := Assembly w0 {[ 1%positive := orders ]} ∅.

Definition no_config : config := Config [] JUndefined None None.

Definition modules : list (string * loc) := [("orders", 1%positive)].

(** Assemble the store, then dispatch ADD_ITEM and the action [last]. *)
Definition add_then (last : action) : M assembly store :=
  let* res := createStore modules no_config in
  let* s1 := lift (dispatch (the_store res) ADD_ITEM) in
  lift (dispatch s1 last).

Definition built : completion reducer * world :=
  getReducer (Some 1%positive) (VRef 1%positive) (Some "orders") w0.

(** The plain data of the state a run ends in. *)
Definition state_after (run : completion value * world) : option data :=
  match run with
  | (Normal v, w) => snapshot w v
  | (Throw _, _) => None
  end.

Definition UNDEFINED_RESET : action := Action "undefined__RESET__" (DObj []).

Definition assembled_orders : completion assembled * assembly :=
  createStore modules no_config a0.

(** [rootState.orders], as plain data. *)
Definition orders_state (r : completion store * assembly) : option data :=
  match r with
  | (Normal s, a) => currentState s !! "orders" ≫= snapshot (heap a)
  | (Throw _, _) => None
  end.

End Orders.

(** A module whose own handler map already uses the reserved key. *)
Module Reserved.

(** [{type: 'orders__RESET__', item: 'x'}] *)
Definition RESET : action :=
  Action "orders__RESET__" (DObj [("item", DPrim (PStr "x"))]).

(** The caller's own entry at the reserved key pushes [action.item]. *)
Definition w0 : world :=
  World {[ 1%positive := Orders.empty_items ]}
        {[ 1%positive := {[ "orders__RESET__" := Orders.push_item ]} ]}
        [].

Definition orders : module :=
  Module_ (VRef 1%positive) (Some 1%positive) (JArray []) None.

Definition a0 : assembly := Assembly w0 {[ 1%positive := orders ]} ∅.

Definition assembled_orders : completion assembled * assembly :=
  createStore [("orders", 1%positive)] Orders.no_config a0.

(** Assemble the store and dispatch the reset action. *)
Definition reset_through_store : M assembly store :=
  let* res := createStore [("orders", 1%positive)] Orders.no_config in
  lift (dispatch (the_store res) RESET).

End Reserved.

(** A module whose only handler throws. *)
Module Failing.

Definition boom : error := Thrown (DPrim (PStr "boom")).

Definition explode : handler := λ _ _, HandlerRun [] (Throws boom).

Definition EXPLODE : action := Action "EXPLODE" (DObj []).

Definition w0 : world :=
  World {[ 1%positive := DObj [("n", DPrim (PNum 0))] ]}
        {[ 1%positive := {[ "EXPLODE" := explode ]} ]}
        [].

Definition built : completion reducer * world :=
  getReducer (Some 1%positive) (VRef 1%positive) (Some "failing") w0.

End Failing.

(** Modules A (effects [[e1]]) and B (effects [[e2]]), registered in that
    order, global effects [[e3]]; and the same with a module C that has no
    [sagas] field registered between A and B. *)
Module Effects.

Definition e1 : jv := JEffect "e1".
Definition e2 : jv := JEffect "e2".
Definition e3 : jv := JEffect "e3".

Definition A : module := Module_ (VRef 1%positive) (Some 1%positive) (JArray [e1]) None.
Definition B : module := Module_ (VRef 2%positive) (Some 2%positive) (JArray [e2]) None.
Definition C : module := Module_ (VRef 3%positive) (Some 3%positive) JUndefined None.

Definition a0 : assembly :=
  Assembly
    (World {[ 1%positive := DObj []; 2%positive := DObj []; 3%positive := DObj [] ]}
           {[ 1%positive := ∅; 2%positive := ∅; 3%positive := ∅ ]}
           [])
    {[ 1%positive := A; 2%positive := B; 3%positive := C ]}
    ∅.

Definition with_global : config := Config [] (JArray [e3]) None None.

Definition two_modules : list (string * loc) := [("A", 1%positive); ("B", 2%positive)].

Definition three_modules : list (string * loc) :=
  [("A", 1%positive); ("C", 3%positive); ("B", 2%positive)].

End Effects.

(** ** Properties *)

(** A run that changed no existing state object and no handler map. *)
Definition frame_ok (w w' : world) : Prop :=
  objects w ⊆ objects w' ∧ handler_maps w' = handler_maps w.

(** What [concat] appends for one argument. *)
Definition spread (x : jv) : list jv :=
  match x with
  | JArray items => items
  | _ => [x]
  end.

(** What the module loop appends for one entry of [modules], and what the
    last line of the aggregation appends for the configuration. *)
Definition module_routines (a : assembly) (entry : string * loc) : list jv :=
  match module_objs a !! entry.2 with
  | Some m => spread (mod_sagas m)
  | None => []
  end.

Definition config_routines (c : config) : list jv :=
  if truthy (cfg_sagas c) then spread (cfg_sagas c) else [].

(** A module object as the specification has it after assembly: the object,
    its handler map and its initial state are what they were before. *)
Definition module_unchanged (a a' : assembly) (l : loc) : Prop :=
  module_objs a' !! l = module_objs a !! l ∧
  ∀ m, module_objs a !! l = Some m →
    (∀ hl, mod_mutations m = Some hl →
       handler_maps (heap a') !! hl = handler_maps (heap a) !! hl) ∧
    snapshot (heap a') (mod_state m) = snapshot (heap a) (mod_state m).

(** Caller-supplied reducers and decorators that themselves change no
    existing state object and no handler map. *)
Definition quiet (r : reducer) : Prop :=
  ∀ state a w, frame_ok w (r state a w).2.

Definition quiet_root (r : root_reducer) : Prop :=
  ∀ state a w, frame_ok w (r state a w).2.

Definition quiet_module (m : module) : Prop :=
  ∀ decorate, mod_decorateReducer m = Some decorate →
    ∀ r, quiet r → quiet (decorate r).

Definition quiet_config (c : config) : Prop :=
  Forall (λ kr, quiet kr.2) (cfg_reducers c) ∧
  ∀ decorate, cfg_decorateReducer c = Some decorate →
    ∀ r, quiet_root r → quiet_root (decorate r).


(** Handler failure containment as the specification words it: the call
    returns normally with the state it was given, and the console has grown
    by exactly one entry. *)
Definition contained (r : reducer) (state : value) (a : action) (w : world) : Prop :=
  ∃ w' entry, r state a w = (Normal state, w') ∧ console w' = console w ++ [entry].

(** What assembly may do to the shared objects: module objects stay as they
    are, existing state objects keep their contents, and a handler map
    changes at the injected key only. *)
Definition only_reset_injected (key : string) (a a' : assembly) : Prop :=
  module_objs a' = module_objs a ∧
  objects (heap a) ⊆ objects (heap a') ∧
  ∀ l k, k ≠ key → lookup_method (heap a') l k = lookup_method (heap a) l k.

(** The reducer createStore stores for a module, decorated when the module
    asks for it. *)
Definition decorated (m : module) (r : reducer) : reducer :=
  match mod_decorateReducer m with
  | Some decorate => decorate r
  | None => r
  end.

(** The root reducer createStore hands to the store. *)
Definition decorated_root (c : config) (reducerList : list (string * reducer))
    : root_reducer :=
  match cfg_decorateReducer c with
  | Some decorate => decorate (combineReducers reducerList)
  | None => combineReducers reducerList
  end.

(** Whether a handler map has an entry at the key createStore injects. *)
Definition has_injected_entry (o : option (gmap string handler)) : bool :=
  match o ≫= (.!! "undefined__RESET__") with
  | Some _ => true
  | None => false
  end.

(** Two stores that differ in the console at most, and reducers whose
    results do not depend on what the console holds. *)
Definition same_heap (w w' : world) : Prop :=
  objects w' = objects w ∧ handler_maps w' = handler_maps w.

Definition blind {A B} (r : A → action → M world B) : Prop :=
  ∀ state a w w' res w1,
    same_heap w w' → r state a w = (res, w1) →
    ∃ w1', r state a w' = (res, w1') ∧ same_heap w1 w1'.


(** A reducer that getReducer built. *)
Definition is_transition (kr : string * reducer) : Prop :=
  ∃ l initialState, kr.2 = transition l initialState.

(** The supervisor resumed with one input after the other, and what it hands
    back each time. *)
Fixpoint resume_all (sagas : list jv) (st : gen_state) (inputs : list gen_input)
    (w : world) : list gen_output * gen_state * world :=
  match inputs with
  | [] => ([], st, w)
  | input :: rest =>
      let '(out, st1, w1) := rootSaga sagas st input w in
      let '(outs, st2, w2) := resume_all sagas st1 rest w1 in
      (out :: outs, st2, w2)
  end.

Definition is_yield (out : gen_output) : bool :=
  match out with
  | Yield _ => true
  | _ => false
  end.

(** A module whose one handler does nothing. *)
Module Counter.

(** [(state, action) => {}] *)
Definition ping : handler := λ _ _, HandlerRun [] Untouched.

Definition zero : data := DObj [("n", DPrim (PNum 0))].

Definition w0 : world :=
  World {[ 1%positive := zero ]}
        {[ 1%positive := {[ "PING" := ping ]} ]}
        [].

Definition built : completion reducer * world :=
  getReducer (Some 1%positive) (VRef 1%positive) (Some "counter") w0.

Definition counter : module :=
  Module_ (VRef 1%positive) (Some 1%positive) (JArray []) None.

(** A module object without [mutations], at location 2. *)
Definition bare : module := Module_ (VRef 1%positive) None (JArray []) None.

(** A module object without [state], at location 3. *)
Definition stateless : module :=
  Module_ undefined (Some 1%positive) (JArray []) None.

Definition a0 : assembly :=
  Assembly w0 {[ 1%positive := counter; 2%positive := bare; 3%positive := stateless ]} ∅.

Definition no_config : config := Config [] JUndefined None None.

End Counter.


(** How many effects a sequence of outputs yields. *)
Definition yields (outs : list gen_output) : nat :=
  length (List.filter is_yield outs).

(** ** The reducer builder *)

Section Reducer.

Implicit Types (l : loc) (w : world) (h : gmap string handler).
Implicit Types (initialState state : value) (name : option string).

Lemma getReducer_inv actionList initialState name w r w' :
  getReducer actionList initialState name w = (Normal r, w') →
  ∃ l h, actionList = Some l ∧ handler_maps w !! l = Some h ∧
         r = transition l initialState ∧
         w' = set_handler_maps
                <[l := <[reset_key name := reset_handler initialState name]> h]> w.
Proof.
  unfold getReducer. destruct actionList as [l|]; [|discriminate].
  destruct (handler_maps w !! l) as [h|] eqn:Hh; [|discriminate].
  intros [= <- <-]. by exists l, h.
Qed.

Lemma getReducer_built l h initialState name w :
  handler_maps w !! l = Some h →
  getReducer (Some l) initialState name w =
    (Normal (transition l initialState),
     set_handler_maps
       <[l := <[reset_key name := reset_handler initialState name]> h]> w).
Proof. intros Hh. unfold getReducer. by rewrite Hh. Qed.

Lemma lookup_method_built l h initialState name w k :
  lookup_method
    (set_handler_maps
       <[l := <[reset_key name := reset_handler initialState name]> h]> w) l k =
  <[reset_key name := reset_handler initialState name]> h !! k.
Proof. unfold lookup_method. cbn. by rewrite lookup_insert_eq. Qed.

Lemma read_method_own w l ty method :
  lookup_method w l ty = Some method → read_method w l ty = Some method.
Proof.
  unfold lookup_method, read_method.
  destruct (handler_maps w !! l) as [h|]; [|done].
  intros Hown. change (h !! ty = Some method) in Hown. by rewrite Hown.
Qed.

Lemma read_method_maps w w' l ty :
  handler_maps w' = handler_maps w → read_method w' l ty = read_method w l ty.
Proof. unfold read_method. by intros ->. Qed.

Lemma read_method_inherited w l ty method :
  lookup_method w l ty = None → read_method w l ty = Some method →
  ∃ p, Object_prototype !! ty = Some p ∧ method = call_inherited p.
Proof.
  unfold lookup_method, read_method.
  destruct (handler_maps w !! l) as [h|]; [|intros _ [=]].
  intros Hown. change (h !! ty = None) in Hown. rewrite Hown.
  destruct (Object_prototype !! ty) as [p|] eqn:Hp; [|intros [=]].
  intros [= <-]. by exists p.
Qed.

Lemma read_method_none w l ty :
  lookup_method w l ty = None → Object_prototype !! ty = None →
  read_method w l ty = None.
Proof.
  unfold lookup_method, read_method.
  destruct (handler_maps w !! l) as [h|]; [|done].
  intros Hown. change (h !! ty = None) in Hown. by rewrite Hown; intros ->.
Qed.

(** An inherited function leaves the draft alone or throws. *)
Lemma call_inherited_run p d a :
  call_inherited p d a = HandlerRun [] Untouched ∨
  ∃ e, call_inherited p d a = HandlerRun [] (Throws e).
Proof. destruct p, d; cbn; eauto. Qed.

Lemma produce_untouched base recipe w d :
  snapshot w base = Some d → recipe d = HandlerRun [] Untouched →
  produce base recipe w = (Normal base, set_console (λ c, c ++ []) w).
Proof. intros Hs Hr. unfold produce. rewrite Hs, Hr. reflexivity. Qed.

Lemma set_console_nil w : set_console (λ c, c ++ []) w = w.
Proof. destruct w. unfold set_console. cbn. by rewrite app_nil_r. Qed.

Lemma produce_throws base recipe w d logs e :
  snapshot w base = Some d → recipe d = HandlerRun logs (Throws e) →
  produce base recipe w = (Throw e, set_console (λ c, c ++ logs) w).
Proof. intros Hs Hr. unfold produce. rewrite Hs, Hr. reflexivity. Qed.

(** An allocation never lands on an object that is there. *)
Lemma fresh_object w : objects w !! fresh (dom (objects w)) = None.
Proof. apply not_elem_of_dom, is_fresh. Qed.

Lemma produce_frame base recipe w r w' :
  produce base recipe w = (r, w') → frame_ok w w'.
Proof.
  unfold produce. destruct (snapshot w base) as [d|]; [|intros [= <- <-]; done].
  destruct (recipe d) as [logs eff]. unfold bind, log_all, modify. cbn.
  destruct eff as [|d'|e]; cbn.
  - intros [= <- <-]. done.
  - destruct base as [p|l0]; cbn.
    + intros [= <- <-]. done.
    + intros [= <- <-]. split; [|done]. cbn.
      apply insert_subseteq, (fresh_object w).
  - intros [= <- <-]. done.
Qed.

Lemma transition_frame l initialState state a w r w' :
  transition l initialState state a w = (r, w') → frame_ok w w'.
Proof.
  unfold transition. destruct (read_method w l (type a)) as [method|].
  - apply produce_frame.
  - intros [= <- <-]. done.
Qed.



End Reducer.

Section Transition.

Implicit Types (l : loc) (w : world) (h : gmap string handler).
Implicit Types (initialState state : value) (name : option string).

(** An action type that is no entry of the handler map and no name that the
    map inherits: the reducer returns its state variable and changes
    nothing. *)
Lemma unhandled_type_returns_state l initialState state a w :
  lookup_method w l (type a) = None →
  Object_prototype !! type a = None →
  transition l initialState state a w =
    (Normal (default_state initialState state), w).
Proof.
  intros Hown Hproto. unfold transition.
  by rewrite (read_method_none _ _ _ Hown Hproto).
Qed.

(** C4. The [orders] reducer, run on the code with actions whose types are
    no key of its handler map: for [hasOwnProperty], [valueOf] and
    [__proto__] the property read finds what the map inherits from
    [Object.prototype], the reducer takes it for a handler, and the call
    throws a TypeError to the caller instead of returning the state; only
    for a type that is no inherited name either does the state come back,
    the same reference. *)
Theorem inherited_type_is_dispatched :
  ∃ r w1, Orders.built = (Normal r, w1) ∧
    lookup_method w1 1%positive "hasOwnProperty" = None ∧
    lookup_method w1 1%positive "valueOf" = None ∧
    lookup_method w1 1%positive "__proto__" = None ∧
    r (VRef 1%positive) (Action "hasOwnProperty" (DObj [])) w1 =
      (Throw no_receiver, w1) ∧
    r (VRef 1%positive) (Action "valueOf" (DObj [])) w1 = (Throw no_receiver, w1) ∧
    r (VRef 1%positive) (Action "__proto__" (DObj [])) w1 =
      (Throw not_a_function, w1) ∧
    r (VRef 1%positive) (Action "NO_SUCH_ACTION" (DObj [])) w1 =
      (Normal (VRef 1%positive), w1).
Proof.
  eexists _, _. split; [reflexivity|].
  repeat split; vm_compute; reflexivity.
Qed.

(** Dispatching the reset action type hands the state back as it is. *)
Lemma reset_returns_current_state l h initialState name state p w d :
  handler_maps w !! l = Some h →
  h !! reset_key name = Some (reset_handler initialState name) →
  snapshot w (default_state initialState state) = Some d →
  transition l initialState state (Action (reset_key name) p) w =
    (Normal (default_state initialState state), w).
Proof.
  intros Hl Hk Hs. unfold transition, read_method. cbn.
  rewrite Hl, Hk.
  erewrite produce_untouched; [|exact Hs|reflexivity].
  by rewrite set_console_nil.
Qed.

(** Called with a name, getReducer overwrites an entry the caller's handler
    map already has at [name + '__RESET__']: the map then holds the injected
    function at that key, and the reducer runs that function for an action
    of that type. *)
Lemma getReducer_overwrites_reset_entry l h user initialState name w :
  handler_maps w !! l = Some h →
  h !! reset_key name = Some user →
  ∃ r w',
    getReducer (Some l) initialState name w = (Normal r, w') ∧
    lookup_method w' l (reset_key name) = Some (reset_handler initialState name) ∧
    ∀ state p w2, handler_maps w2 = handler_maps w' →
      r state (Action (reset_key name) p) w2 =
        produce (default_state initialState state)
          (λ draft_state,
             reset_handler initialState name draft_state (Action (reset_key name) p))
          w2.
Proof.
  intros Hl _. eexists _, _. split; [by apply getReducer_built|].
  split.
  - rewrite lookup_method_built. apply lookup_insert_eq.
  - intros state p w2 Hmaps. unfold transition, read_method. cbn.
    rewrite Hmaps. cbn. by rewrite !lookup_insert_eq.
Qed.

(** C1. The reset scenario, run on the code: the [orders] reducer is built
    with initial state [{items: []}], ADD_ITEM pushes ['x'], the action
    [orders__RESET__] is dispatched, and the state is then [{items: ['x']}],
    which is not [{items: []}]. *)
Theorem reset_keeps_pushed_item :
  Orders.state_after (Orders.add_then_reset Orders.w0) = Some Orders.one_item ∧
  Orders.one_item ≠ Orders.empty_items.
Proof. split; [vm_compute; reflexivity|discriminate]. Qed.

(** C2, counterexample. The reducer of a module whose handler throws: the
    call throws to its caller with the console untouched, so the failure
    is not contained. *)
Lemma throwing_handler_not_contained :
  ∃ r w1, Failing.built = (Normal r, w1) ∧
    r (VRef 1%positive) Failing.EXPLODE w1 = (Throw Failing.boom, w1) ∧
    ¬ contained r (VRef 1%positive) Failing.EXPLODE w1.
Proof.
  eexists _, _. split; [reflexivity|]. split; [vm_compute; reflexivity|].
  intros (w' & entry & Hrun & _). vm_compute in Hrun. discriminate.
Qed.

(** C2, amended. When the handler that matches the action throws on the
    state's contents, the transition function throws the same error to its
    caller; it returns no state, writes nothing to the console beyond what
    the handler itself had written before it threw, allocates nothing and
    leaves every object and handler map as it was. *)
Theorem throwing_handler_reaches_caller
    l initialState name w0 r w1 state a w method d logs e :
  getReducer (Some l) initialState name w0 = (Normal r, w1) →
  lookup_method w l (type a) = Some method →
  snapshot w (default_state initialState state) = Some d →
  method d a = HandlerRun logs (Throws e) →
  ∃ w', r state a w = (Throw e, w') ∧
        console w' = console w ++ logs ∧
        objects w' = objects w ∧ handler_maps w' = handler_maps w.
Proof.
  intros Hbuild Hm Hs Hthrow.
  apply getReducer_inv in Hbuild as (l' & h & [= <-] & _ & -> & _).
  exists (set_console (λ c, c ++ logs) w). split; [|done].
  unfold transition. rewrite (read_method_own _ _ _ _ Hm).
  by eapply produce_throws.
Qed.

Lemma throwing_handler_reaches_caller_witness :
  ∃ r w1 w', Failing.built = (Normal r, w1) ∧
    r (VRef 1%positive) Failing.EXPLODE w1 = (Throw Failing.boom, w') ∧
    console w' = console w1 ++ [].
Proof.
  destruct (throwing_handler_reaches_caller 1%positive (VRef 1%positive)
              (Some "failing") Failing.w0 _ _ (VRef 1%positive) Failing.EXPLODE
              (snd Failing.built) Failing.explode
              (DObj [("n", DPrim (PNum 0))]) [] Failing.boom
              eq_refl eq_refl eq_refl eq_refl) as (w' & Hrun & Hc & _).
  eexists _, _, w'. split; [reflexivity|]. split; [exact Hrun|exact Hc].
Defined.



End Transition.

(** ** The store assembler *)

Section Assembler.

Implicit Types (a : assembly) (w : world) (m : module).
Implicit Types (sagas : list jv) (reducerList : list (string * reducer)).

Lemma bind_normal {S A B} (c : M S A) (k : A → M S B) s b s' :
  bind c k s = (Normal b, s') →
  ∃ x s1, c s = (Normal x, s1) ∧ k x s1 = (Normal b, s').
Proof. unfold bind. destruct (c s) as [[x|e] s1]; [eauto|discriminate]. Qed.

Lemma lift_normal {A} (c : M world A) a x a' :
  lift c a = (Normal x, a') →
  ∃ w', c (heap a) = (Normal x, w') ∧
        a' = Assembly w' (module_objs a) (registry a).
Proof.
  unfold lift. destruct (c (heap a)) as [r w'] eqn:Hc.
  intros [= -> <-]. eauto.
Qed.

Lemma array_concat_spread sagas x : array_concat sagas x = sagas ++ spread x.
Proof. by destruct x. Qed.

(** One round of the module loop. *)
Lemma each_module_normal sagas reducerList moduleName l a sagas' reducerList' a' :
  each_module (sagas, reducerList) (moduleName, l) a =
    (Normal (sagas', reducerList'), a') →
  ∃ m hl h,
    module_objs a !! l = Some m ∧
    mod_mutations m = Some hl ∧
    handler_maps (heap a) !! hl = Some h ∧
    sagas' = sagas ++ spread (mod_sagas m) ∧
    reducerList' =
      assign moduleName (decorated m (transition hl (mod_state m))) reducerList ∧
    a' = Assembly
           (set_handler_maps
              <[hl := <[reset_key None := reset_handler (mod_state m) None]> h]>
              (heap a))
           (module_objs a) (<[moduleName := l]> (registry a)).
Proof.
  unfold each_module. intros Hrun.
  apply bind_normal in Hrun as ([] & a1 & Hreg & Hrun).
  unfold register, modify in Hreg. injection Hreg as <-.
  apply bind_normal in Hrun as (m & a2 & Hread & Hrun).
  unfold read_module in Hread. cbn in Hread.
  destruct (module_objs a !! l) as [m'|] eqn:Hm; [|discriminate].
  injection Hread as -> <-.
  apply bind_normal in Hrun as (r & a3 & Hbuild & Hrun).
  apply lift_normal in Hbuild as (w' & Hbuild & ->). cbn in Hbuild.
  apply getReducer_inv in Hbuild as (hl & h & Hmut & Hh & -> & ->).
  unfold ret in Hrun. injection Hrun as <- <- <-.
  exists m, hl, h. rewrite array_concat_spread. done.
Qed.

Lemma only_reset_injected_trans key a1 a2 a3 :
  only_reset_injected key a1 a2 → only_reset_injected key a2 a3 →
  only_reset_injected key a1 a3.
Proof.
  intros (Hm1 & Ho1 & Hk1) (Hm2 & Ho2 & Hk2). split; [congruence|].
  split; [by etrans|]. intros l k Hne. by rewrite Hk2, Hk1.
Qed.

Lemma lookup_method_inject w hl h key f l k :
  handler_maps w !! hl = Some h → k ≠ key →
  lookup_method (set_handler_maps <[hl := <[key := f]> h]> w) l k =
    lookup_method w l k.
Proof.
  intros Hh Hne. unfold lookup_method. cbn.
  destruct (decide (hl = l)) as [<-|Hl].
  - rewrite lookup_insert_eq, Hh. cbn. by rewrite lookup_insert_ne.
  - by rewrite lookup_insert_ne.
Qed.

Lemma each_module_frame sagas reducerList moduleName l a sagas' reducerList' a' :
  each_module (sagas, reducerList) (moduleName, l) a =
    (Normal (sagas', reducerList'), a') →
  only_reset_injected (reset_key None) a a'.
Proof.
  intros Hrun.
  apply each_module_normal in Hrun as (m & hl & h & _ & _ & Hh & _ & _ & ->).
  split; [done|]. split; [done|]. intros l' k Hne. cbn.
  by apply lookup_method_inject.
Qed.

(** The module loop appends every module's routines in the order of
    [modules] and touches no module object. *)
Lemma forEach_each_module modules : ∀ sagas reducerList a sagas' reducerList' a',
  forEach each_module (sagas, reducerList) modules a =
    (Normal (sagas', reducerList'), a') →
  sagas' = sagas ++ flat_map (module_routines a) modules ∧
  only_reset_injected (reset_key None) a a'.
Proof.
  induction modules as [|[moduleName l] modules IH];
    intros sagas reducerList a sagas' reducerList' a' Hrun.
  - injection Hrun as <- <- <-. cbn. by rewrite app_nil_r.
  - cbn in Hrun. apply bind_normal in Hrun as ([sagas1 rl1] & a1 & Hone & Hrest).
    pose proof (each_module_frame _ _ _ _ _ _ _ _ Hone) as Hframe.
    apply each_module_normal in Hone as (m & hl & h & Hm & _ & _ & -> & _ & _).
    apply IH in Hrest as (-> & Hframe').
    split; [|by eapply only_reset_injected_trans].
    cbn. unfold module_routines at 2. cbn. rewrite Hm, <- app_assoc.
    do 2 f_equal. apply flat_map_ext. intros [nm l'].
    unfold module_routines. by destruct Hframe as (-> & _).
Qed.

Lemma createStore_normal modules config a res a' :
  createStore modules config a = (Normal res, a') →
  ∃ sagas reducerList a1 w',
    forEach each_module ([], cfg_reducers config) modules a =
      (Normal (sagas, reducerList), a1) ∧
    sagas_of res = sagas ++ config_routines config ∧
    root_task res = (Yield (All (sagas_of res)), AtYield) ∧
    storeCreator (decorated_root config reducerList)
      (default ∅ (cfg_preloadedState config)) (heap a1) =
      (Normal (the_store res), w') ∧
    a' = Assembly w' (module_objs a1) (registry a1).
Proof.
  unfold createStore. intros Hrun.
  apply bind_normal in Hrun as ([sagas reducerList] & a1 & Hloop & Hrun).
  apply bind_normal in Hrun as (st & a2 & Hstore & Hrun).
  apply lift_normal in Hstore as (w' & Hstore & ->).
  apply bind_normal in Hrun as ([out gst] & a3 & Htask & Hrun).
  apply lift_normal in Htask as (w2 & Htask & ->).
  unfold run in Htask. cbn in Htask. injection Htask as <- <- <-.
  unfold ret in Hrun. injection Hrun as <- <-.
  exists sagas, reducerList, a1, w'. cbn.
  split; [exact Hloop|]. split.
  { unfold config_routines. destruct (truthy (cfg_sagas config));
      [apply array_concat_spread|by rewrite app_nil_r]. }
  split; [done|]. split; [|done].
  unfold decorated_root. exact Hstore.
Qed.

(** The array rootSaga closes over. *)
Lemma createStore_sagas modules config a res a' :
  createStore modules config a = (Normal res, a') →
  sagas_of res = flat_map (module_routines a) modules ++ config_routines config ∧
  root_task res = (Yield (All (sagas_of res)), AtYield).
Proof.
  intros Hrun.
  apply createStore_normal in Hrun as (sagas & rl & a1 & w' & Hloop & -> & -> & _).
  by apply forEach_each_module in Hloop as (-> & _).
Qed.

Lemma effect_lists_concat a modules per_module :
  Forall2 (λ entry effects,
             ∃ m, module_objs a !! entry.2 = Some m ∧ mod_sagas m = JArray effects)
          modules per_module →
  flat_map (module_routines a) modules = concat per_module.
Proof.
  induction 1 as [|entry effects modules per_module (m & Hm & Hs) _ IH]; [done|].
  cbn. rewrite IH. f_equal. unfold module_routines. by rewrite Hm, Hs.
Qed.

(** C8. When every module's [sagas] is an effect list, the array handed to
    the supervisor (the one [rootSaga] yields inside [all]) is the
    concatenation of the modules' effect lists in the order createStore
    registers them, followed by the global effect routines of the
    configuration (none when the configuration has no [sagas]). *)
Theorem sagas_in_registration_order modules config a res a' per_module global :
  createStore modules config a = (Normal res, a') →
  Forall2 (λ entry effects,
             ∃ m, module_objs a !! entry.2 = Some m ∧ mod_sagas m = JArray effects)
          modules per_module →
  cfg_sagas config = JArray global ∨ (cfg_sagas config = JUndefined ∧ global = []) →
  sagas_of res = concat per_module ++ global ∧
  root_task res = (Yield (All (concat per_module ++ global)), AtYield).
Proof.
  intros Hrun Hlists Hglobal.
  apply createStore_sagas in Hrun as (Hs & Ht).
  rewrite Ht, Hs, (effect_lists_concat _ _ _ Hlists).
  assert (config_routines config = global) as ->; [|done].
  unfold config_routines. by destruct Hglobal as [->|[-> ->]].
Qed.

Lemma sagas_in_registration_order_witness :
  ∃ res a',
    createStore Effects.two_modules Effects.with_global Effects.a0 = (Normal res, a') ∧
    sagas_of res = [Effects.e1; Effects.e2; Effects.e3] ∧
    root_task res = (Yield (All [Effects.e1; Effects.e2; Effects.e3]), AtYield).
Proof.
  destruct (createStore Effects.two_modules Effects.with_global Effects.a0)
    as [[res|e] a'] eqn:Hrun; [|vm_compute in Hrun; discriminate].
  exists res, a'. split; [reflexivity|].
  apply (sagas_in_registration_order Effects.two_modules Effects.with_global
           Effects.a0 res a' [[Effects.e1]; [Effects.e2]] [Effects.e3] Hrun).
  - repeat constructor.
    + exists Effects.A. split; reflexivity.
    + exists Effects.B. split; reflexivity.
  - left. reflexivity.
Defined.

(** C10. A module registered without a [sagas] field does not drop out of
    the aggregation: [concat] appends the value [undefined] itself, at the
    place where the module's routines would stand, to the array handed to
    the supervisor. *)
Theorem missing_sagas_appends_undefined
    before moduleName l after config a m res a' :
  createStore (before ++ (moduleName, l) :: after) config a = (Normal res, a') →
  module_objs a !! l = Some m →
  mod_sagas m = JUndefined →
  sagas_of res =
    flat_map (module_routines a) before ++
    JUndefined :: flat_map (module_routines a) after ++ config_routines config ∧
  root_task res = (Yield (All (sagas_of res)), AtYield).
Proof.
  intros Hrun Hm Hs. apply createStore_sagas in Hrun as (-> & Ht).
  split; [|exact Ht].
  rewrite flat_map_app, <- app_assoc. cbn. f_equal.
  unfold module_routines at 1. cbn. by rewrite Hm, Hs.
Qed.

Lemma missing_sagas_appends_undefined_witness :
  ∃ res a',
    createStore Effects.three_modules Effects.with_global Effects.a0 =
      (Normal res, a') ∧
    sagas_of res = [Effects.e1; JUndefined; Effects.e2; Effects.e3].
Proof.
  destruct (createStore Effects.three_modules Effects.with_global Effects.a0)
    as [[res|e] a'] eqn:Hrun; [|vm_compute in Hrun; discriminate].
  exists res, a'. split; [reflexivity|].
  apply (missing_sagas_appends_undefined [("A", 1%positive)] "C" 3%positive
           [("B", 2%positive)] Effects.with_global Effects.a0 Effects.C res a'
           Hrun eq_refl eq_refl).
Defined.

Lemma frame_ok_trans w1 w2 w3 : frame_ok w1 w2 → frame_ok w2 w3 → frame_ok w1 w3.
Proof. intros [Ho1 Hh1] [Ho2 Hh2]. split; [by etrans|congruence]. Qed.

Lemma quiet_transition l initialState : quiet (transition l initialState).
Proof.
  intros state act w.
  destruct (transition l initialState state act w) as [r w'] eqn:Hrun.
  by eapply transition_frame.
Qed.

Lemma assign_quiet k r reducerList :
  quiet r → Forall (λ kr, quiet kr.2) reducerList →
  Forall (λ kr, quiet kr.2) (assign k r reducerList).
Proof.
  intros Hr. induction 1 as [|[k' r'] rest Hr' Hrest IH]; cbn.
  - constructor; [exact Hr|constructor].
  - destruct (decide (k = k')); constructor; done.
Qed.

Lemma forEach_quiet modules : ∀ sagas reducerList a sagas' reducerList' a',
  forEach each_module (sagas, reducerList) modules a =
    (Normal (sagas', reducerList'), a') →
  (∀ l m, module_objs a !! l = Some m → quiet_module m) →
  Forall (λ kr, quiet kr.2) reducerList →
  Forall (λ kr, quiet kr.2) reducerList'.
Proof.
  induction modules as [|[moduleName l] modules IH];
    intros sagas reducerList a sagas' reducerList' a' Hrun Hmods Hrl.
  - by injection Hrun as <- <- <-.
  - cbn in Hrun. apply bind_normal in Hrun as ([sagas1 rl1] & a1 & Hone & Hrest).
    apply each_module_normal in Hone as (m & hl & h & Hm & _ & _ & _ & -> & ->).
    eapply IH; [exact Hrest|exact Hmods|].
    apply assign_quiet; [|exact Hrl].
    unfold decorated. destruct (mod_decorateReducer m) as [decorate|] eqn:Hd.
    + eapply Hmods; [exact Hm|exact Hd|apply quiet_transition].
    + apply quiet_transition.
Qed.

Lemma combination_frame reducers : ∀ state act nextState hasChanged w r w',
  Forall (λ kr, quiet kr.2) reducers →
  combination reducers state act nextState hasChanged w = (r, w') →
  frame_ok w w'.
Proof.
  induction reducers as [|[key red] rest IH];
    intros state act nextState hasChanged w r w' Hq Hrun.
  - by injection Hrun as <- <-.
  - inversion Hq as [|? ? Hred Hrest]; subst. cbn in Hrun. unfold bind in Hrun.
    destruct (red _ act w) as [[v|e] w1] eqn:Hr in Hrun;
      match type of Hr with
      | red ?prev _ _ = _ => pose proof (Hred prev act w) as Hstep
      end; cbn in Hstep; rewrite Hr in Hstep.
    + cbn in Hstep. destruct (decide (v = undefined)).
      * unfold throw in Hrun. injection Hrun as <- <-. exact Hstep.
      * eapply frame_ok_trans; [exact Hstep|]. eapply IH; [exact Hrest|exact Hrun].
    + cbn in Hstep. injection Hrun as <- <-. exact Hstep.
Qed.

Lemma quiet_combineReducers reducers :
  Forall (λ kr, quiet kr.2) reducers → quiet_root (combineReducers reducers).
Proof.
  intros Hq state act w. unfold combineReducers, bind.
  destruct (combination reducers state act ∅ false w) as [[[ns hc]|e] w1] eqn:Hrun;
    cbn; by eapply combination_frame.
Qed.

Lemma dispatch_frame s act w r w' :
  quiet_root (currentReducer s) → dispatch s act w = (r, w') → frame_ok w w'.
Proof.
  intros Hq. unfold dispatch, bind.
  pose proof (Hq (currentState s) act w) as Hstep.
  destruct (currentReducer s (currentState s) act w) as [[next|e] w1];
    cbn in Hstep; by intros [= <- <-].
Qed.

(** C3. The store assembled from the [orders] module, run on the code: its
    handler map has no entry at [orders__RESET__] and has the injected
    function at [undefined__RESET__]; after ADD_ITEM, dispatching either
    action type leaves [rootState.orders] at [{items: ['x']}]. *)
Theorem store_reset_is_not_per_module :
  lookup_method (heap Orders.assembled_orders.2) 1%positive "orders__RESET__" = None ∧
  lookup_method (heap Orders.assembled_orders.2) 1%positive "undefined__RESET__" =
    Some (reset_handler (VRef 1%positive) None) ∧
  Orders.orders_state (Orders.add_then Orders.RESET Orders.a0) = Some Orders.one_item ∧
  Orders.orders_state (Orders.add_then Orders.UNDEFINED_RESET Orders.a0) =
    Some Orders.one_item ∧
  Orders.one_item ≠ Orders.empty_items.
Proof. repeat split; try (vm_compute; reflexivity). discriminate. Qed.

(** C9. The store assembled from an [orders] module whose own handler map
    defines [orders__RESET__], run on the code: createStore builds the
    reducer without the module's name, so the injected function lands at
    [undefined__RESET__], the caller's entry stays where it was, and
    dispatching [orders__RESET__] runs the caller's function, which pushes
    the action's item: the state [{items: []}] becomes [{items: ['x']}],
    where the injected function would have left it as it was. *)
Theorem caller_reset_entry_is_dispatched :
  lookup_method (heap Reserved.assembled_orders.2) 1%positive "orders__RESET__" =
    Some Orders.push_item ∧
  lookup_method (heap Reserved.assembled_orders.2) 1%positive "undefined__RESET__" =
    Some (reset_handler (VRef 1%positive) None) ∧
  Orders.orders_state (Reserved.reset_through_store Reserved.a0) =
    Some Orders.one_item ∧
  Orders.one_item ≠ Orders.empty_items.
Proof. repeat split; try (vm_compute; reflexivity). discriminate. Qed.

(** C7, counterexample. Assembling the store from the [orders] module
    succeeds and leaves the module's handler map with an entry it did not
    have before. *)
Lemma createStore_writes_handler_map :
  (∃ res, Orders.assembled_orders.1 = Normal res) ∧
  ¬ module_unchanged Orders.a0 Orders.assembled_orders.2 1%positive.
Proof.
  split.
  - destruct Orders.assembled_orders as [[res|e] a'] eqn:Hrun;
      [by exists res|vm_compute in Hrun; discriminate].
  - intros [_ Hsame].
    destruct (Hsame Orders.orders eq_refl) as [Hmap _].
    specialize (Hmap 1%positive eq_refl).
    apply (f_equal (λ o, has_injected_entry o)) in Hmap.
    vm_compute in Hmap. discriminate.
Qed.

(** C7, amended. As long as the reducers and decorators the caller supplies
    change no object themselves, assembling a store leaves every module
    object as it was (its fields, its effects list), leaves every state
    object that existed with the contents it had, and changes a handler
    map only at the key of the injected reset function: every other entry
    is the one the caller supplied. *)
Theorem createStore_injects_reset_only modules config a res a' :
  quiet_config config →
  (∀ l m, module_objs a !! l = Some m → quiet_module m) →
  createStore modules config a = (Normal res, a') →
  only_reset_injected (reset_key None) a a'.
Proof.
  intros [Hreducers Hdecorate] Hmods Hrun.
  apply createStore_normal in Hrun
    as (sagas & rl & a1 & w' & Hloop & _ & _ & Hstore & ->).
  pose proof (forEach_quiet _ _ _ _ _ _ _ Hloop Hmods Hreducers) as Hrl.
  apply forEach_each_module in Hloop as (_ & Hframe).
  eapply only_reset_injected_trans; [exact Hframe|].
  apply dispatch_frame in Hstore as [Hobj Hmaps].
  - split; [done|]. split; [done|]. intros l k _. cbn.
    unfold lookup_method. by rewrite Hmaps.
  - cbn. unfold decorated_root.
    destruct (cfg_decorateReducer config) as [decorate|] eqn:Hd.
    + eapply Hdecorate; [reflexivity|]. by apply quiet_combineReducers.
    + by apply quiet_combineReducers.
Qed.

Lemma createStore_injects_reset_only_witness :
  ∃ res a',
    createStore Orders.modules Orders.no_config Orders.a0 = (Normal res, a') ∧
    only_reset_injected "undefined__RESET__" Orders.a0 a'.
Proof.
  destruct (createStore Orders.modules Orders.no_config Orders.a0)
    as [[res|e] a'] eqn:Hrun; [|vm_compute in Hrun; discriminate].
  exists res, a'. split; [reflexivity|].
  apply (createStore_injects_reset_only Orders.modules Orders.no_config
           Orders.a0 res a').
  - split; [constructor|]. intros decorate Hd. discriminate Hd.
  - intros l m Hm decorate Hd.
    destruct (decide (l = 1%positive)) as [->|Hne].
    + vm_compute in Hm. injection Hm as <-. discriminate Hd.
    + unfold Orders.a0 in Hm. cbn in Hm.
      rewrite lookup_singleton_ne in Hm by done. discriminate Hm.
  - exact Hrun.
Defined.

End Assembler.

(** ** The effect supervisor *)

Section Supervisor.

Implicit Types (w : world) (sagas : list jv).

Lemma snapshot_same_heap w w' v : same_heap w w' → snapshot w' v = snapshot w v.
Proof. intros [Ho _]. destruct v; cbn; [done|by rewrite Ho]. Qed.

Lemma same_heap_produce base recipe w w' res w1 :
  same_heap w w' → produce base recipe w = (res, w1) →
  ∃ w1', produce base recipe w' = (res, w1') ∧ same_heap w1 w1'.
Proof.
  intros Hsame. unfold produce. rewrite (snapshot_same_heap _ _ _ Hsame).
  destruct Hsame as [Ho Hh].
  destruct (snapshot w base) as [d|]; [|intros [= <- <-]; by eexists].
  destruct (recipe d) as [logs eff]. unfold bind, log_all, modify. cbn.
  destruct eff as [|d'|e]; [|destruct base|]; cbn; rewrite ?Ho;
    intros [= <- <-]; eexists; (split; [reflexivity|]);
    split; cbn; congruence.
Qed.

Lemma blind_transition l initialState : blind (transition l initialState).
Proof.
  intros state a w w' res w1 Hsame. unfold transition.
  rewrite (read_method_maps _ _ _ _ (proj2 Hsame)).
  destruct (read_method w l (type a)) as [method|].
  - by apply same_heap_produce.
  - intros [= <- <-]. by eexists.
Qed.

Lemma blind_combination reducers : ∀ state act nextState hasChanged w w' res w1,
  Forall (λ kr, blind kr.2) reducers →
  same_heap w w' →
  combination reducers state act nextState hasChanged w = (res, w1) →
  ∃ w1', combination reducers state act nextState hasChanged w' = (res, w1') ∧
         same_heap w1 w1'.
Proof.
  induction reducers as [|[key red] rest IH];
    intros state act nextState hasChanged w w' res w1 Hb Hsame Hrun.
  - injection Hrun as <- <-. by eexists.
  - inversion Hb as [|? ? Hred Hrest]; subst. cbn in Hrun, Hred |- *.
    unfold bind in Hrun |- *.
    destruct (red _ act w) as [[v|e] w2] eqn:Hr in Hrun;
      destruct (Hred _ _ _ _ _ _ Hsame Hr) as (w2' & Hr' & Hsame2);
      rewrite Hr'.
    + destruct (decide (v = undefined)).
      * unfold throw in Hrun |- *. injection Hrun as <- <-. by eexists.
      * by eapply IH.
    + injection Hrun as <- <-. by eexists.
Qed.

Lemma blind_combineReducers reducers :
  Forall (λ kr, blind kr.2) reducers → blind (combineReducers reducers).
Proof.
  intros Hb state act w w' res w1 Hsame. unfold combineReducers, bind.
  destruct (combination reducers state act ∅ false w) as [[[ns hc]|e] w2] eqn:Hrun;
    destruct (blind_combination _ _ _ _ _ _ _ _ _ Hb Hsame Hrun) as (w2' & -> & Hs2);
    intros [= <- <-]; by eexists.
Qed.

Lemma blind_dispatch s act w w' res w1 :
  blind (currentReducer s) → same_heap w w' →
  dispatch s act w = (res, w1) →
  ∃ w1', dispatch s act w' = (res, w1') ∧ same_heap w1 w1'.
Proof.
  intros Hb Hsame. unfold dispatch, bind.
  destruct (currentReducer s (currentState s) act w) as [[next|e] w2] eqn:Hrun;
    destruct (Hb _ _ _ _ _ _ Hsame Hrun) as (w2' & -> & Hs2);
    intros [= <- <-]; by eexists.
Qed.

(** C6. Started by the middleware, the supervisor yields [all(sagas)] and
    waits. When the scheduler reports an uncaught error of a routine by
    throwing it into the supervisor, the supervisor catches it, writes one
    entry to the console ([console.error] with the error), and returns:
    nothing is raised to whoever resumed it, it is finished and yields no
    further effect whatever it is resumed with, and no state object or
    handler map has changed, so every module transition function, and
    every dispatch on a store combined from them, gives afterwards the
    result it would have given before. *)
Theorem rootSaga_contains_failure sagas err w :
  rootSaga sagas NotStarted Next w = (Yield (All sagas), AtYield, w) ∧
  ∃ w',
    rootSaga sagas AtYield (ThrowInto err) w = (Return, Finished, w') ∧
    console w' =
      console w ++
      [LogEntry LevelError "[ERROR] Something went wrong in rootSaga: " err] ∧
    same_heap w w' ∧
    (∀ input w2, ∃ out,
       rootSaga sagas Finished input w2 = (out, Finished, w2) ∧
       ∀ e, out ≠ Yield e) ∧
    (∀ l initialState state a res w1,
       transition l initialState state a w = (res, w1) →
       ∃ w1', transition l initialState state a w' = (res, w1') ∧
              same_heap w1 w1') ∧
    (∀ reducers preloaded a res w1,
       Forall (λ kr, ∃ l initialState, kr.2 = transition l initialState) reducers →
       dispatch (Store (combineReducers reducers) preloaded) a w = (res, w1) →
       ∃ w1', dispatch (Store (combineReducers reducers) preloaded) a w' = (res, w1') ∧
              same_heap w1 w1').
Proof.
  split; [reflexivity|]. eexists. split; [reflexivity|].
  split; [reflexivity|]. split; [by split|]. split; [|split].
  - intros [|e|] w2; eexists; (split; [reflexivity|discriminate]).
  - intros l initialState state a res w1 Hrun.
    apply (blind_transition l initialState state a w _ res w1);
      [by split|exact Hrun].
  - intros reducers preloaded a res w1 Hall Hrun.
    apply (blind_dispatch _ a w _ res w1); [|by split|exact Hrun]. cbn.
    apply blind_combineReducers.
    eapply Forall_impl; [exact Hall|].
    intros [k r] (l & init & Hr). cbn in Hr |- *. subst r.
    apply blind_transition.
Qed.

End Supervisor.

(** ** Further properties of the reducer builder *)

Section Builder.

Implicit Types (l : loc) (w : world) (h : gmap string handler).
Implicit Types (initialState state : value) (name : option string).

(** X1. For every reducer getReducer builds, dispatching the module's own
    reset type hands back the state it was given, the same reference, and
    changes nothing: the injected function never resets. *)
Theorem reset_action_is_identity l initialState name w0 r w1 state p w d :
  getReducer (Some l) initialState name w0 = (Normal r, w1) →
  lookup_method w l (reset_key name) = lookup_method w1 l (reset_key name) →
  snapshot w (default_state initialState state) = Some d →
  r state (Action (reset_key name) p) w =
    (Normal (default_state initialState state), w).
Proof.
  intros Hbuild Hlive Hs.
  apply getReducer_inv in Hbuild as (l' & h & [= <-] & Hh & -> & ->).
  rewrite lookup_method_built, lookup_insert_eq in Hlive.
  unfold transition. cbn. rewrite (read_method_own _ _ _ _ Hlive).
  erewrite produce_untouched; [|exact Hs|reflexivity].
  by rewrite set_console_nil.
Qed.

Lemma reset_action_is_identity_witness :
  ∃ r w1, Counter.built = (Normal r, w1) ∧
    r (VRef 1%positive) (Action "counter__RESET__" (DObj [])) w1 =
      (Normal (VRef 1%positive), w1).
Proof.
  eexists _, _. split; [reflexivity|].
  exact (reset_action_is_identity 1%positive (VRef 1%positive) (Some "counter")
           Counter.w0 _ _ (VRef 1%positive) (DObj []) _ Counter.zero
           eq_refl eq_refl eq_refl).
Defined.

(** X3. Building the reducer a second time over the same handler map, with
    the same initial state and name, changes nothing any more: the map holds
    one injected entry, however often getReducer ran. *)
Theorem getReducer_twice l h initialState name w :
  handler_maps w !! l = Some h →
  ∃ r w1,
    getReducer (Some l) initialState name w = (Normal r, w1) ∧
    getReducer (Some l) initialState name w1 = (Normal r, w1).
Proof.
  intros Hh. eexists _, _. split; [by apply getReducer_built|].
  erewrite getReducer_built; [|cbn; apply lookup_insert_eq].
  f_equal. destruct w as [o hm c]. unfold set_handler_maps. cbn.
  by rewrite !insert_insert_eq.
Qed.

Lemma getReducer_twice_witness :
  ∃ r w1,
    getReducer (Some 1%positive) (VRef 1%positive) (Some "counter") Counter.w0 =
      (Normal r, w1) ∧
    getReducer (Some 1%positive) (VRef 1%positive) (Some "counter") w1 = (Normal r, w1).
Proof.
  exact (getReducer_twice 1%positive {[ "PING" := Counter.ping ]}
           (VRef 1%positive) (Some "counter") Counter.w0 eq_refl).
Defined.

End Builder.

(** ** Further properties of the store assembler *)

Section Loop.

Implicit Types (a : assembly) (w : world) (m : module).
Implicit Types (sagas : list jv) (reducerList : list (string * reducer)).

Lemma forEach_app {S A B} (f : B → A → M S B) (xs ys : list A) : ∀ acc s,
  forEach f acc (xs ++ ys) s =
    match forEach f acc xs s with
    | (Normal acc', s') => forEach f acc' ys s'
    | (Throw e, s') => (Throw e, s')
    end.
Proof.
  induction xs as [|x xs IH]; intros acc s; [done|].
  cbn. unfold bind. destruct (f acc x s) as [[acc1|e] s1]; [|done].
  apply IH.
Qed.

(** The round of a module that has no [mutations]. *)
Lemma each_module_no_mutations sagas reducerList moduleName l a m :
  module_objs a !! l = Some m → mod_mutations m = None →
  each_module (sagas, reducerList) (moduleName, l) a =
    (Throw (TypeError "Cannot set property of undefined"),
     Assembly (heap a) (module_objs a) (<[moduleName := l]> (registry a))).
Proof.
  intros Hm Hmut. unfold each_module, bind, register, modify, read_module. cbn.
  rewrite Hm. unfold lift. cbn. by rewrite Hmut.
Qed.

(** After the loop every module's handler map exists and holds an entry at
    the injected key. *)
Lemma forEach_injected modules : ∀ sagas reducerList a sagas' reducerList' a',
  forEach each_module (sagas, reducerList) modules a =
    (Normal (sagas', reducerList'), a') →
  (∀ hl, is_Some (handler_maps (heap a') !! hl) ↔
         is_Some (handler_maps (heap a) !! hl)) ∧
  (∀ hl, is_Some (lookup_method (heap a) hl (reset_key None)) →
         is_Some (lookup_method (heap a') hl (reset_key None))) ∧
  Forall (λ entry, ∃ m hl,
            module_objs a !! entry.2 = Some m ∧ mod_mutations m = Some hl ∧
            is_Some (handler_maps (heap a) !! hl) ∧
            is_Some (lookup_method (heap a') hl (reset_key None))) modules.
Proof.
  induction modules as [|[moduleName l] modules IH];
    intros sagas reducerList a sagas' reducerList' a' Hrun.
  - injection Hrun as <- <- <-. done.
  - cbn in Hrun. apply bind_normal in Hrun as ([sagas1 rl1] & a1 & Hone & Hrest).
    apply each_module_normal in Hone as (m & hl & h & Hm & Hmut & Hh & _ & _ & ->).
    apply IH in Hrest as (Hdom & Hkeep & Hall). cbn in Hdom, Hkeep, Hall.
    assert (Hdom1 : ∀ hl', is_Some
              (<[hl := <[reset_key None := reset_handler (mod_state m) None]> h]>
                 (handler_maps (heap a)) !! hl') ↔
              is_Some (handler_maps (heap a) !! hl')).
    { intros hl'. destruct (decide (hl = hl')) as [<-|Hne].
      - rewrite lookup_insert_eq, Hh. split; eauto.
      - by rewrite lookup_insert_ne. }
    assert (Hkeep1 : ∀ hl', is_Some (lookup_method (heap a) hl' (reset_key None)) →
              is_Some (lookup_method
                (set_handler_maps
                   <[hl := <[reset_key None := reset_handler (mod_state m) None]> h]>
                   (heap a)) hl' (reset_key None))).
    { intros hl'. unfold lookup_method. cbn.
      destruct (decide (hl = hl')) as [<-|Hne].
      - rewrite lookup_insert_eq. cbn. rewrite lookup_insert_eq. eauto.
      - by rewrite lookup_insert_ne. }
    split; [intros hl'; by rewrite Hdom, Hdom1|].
    split; [intros hl' Hsome; by apply Hkeep, Hkeep1|].
    constructor.
    + exists m, hl. cbn. split; [done|]. split; [done|]. split; [by rewrite Hh|].
      apply Hkeep. unfold lookup_method. cbn.
      rewrite lookup_insert_eq. cbn. rewrite lookup_insert_eq. eauto.
    + eapply Forall_impl; [exact Hall|]. cbn.
      intros entry (m' & hl' & Hm' & Hmut' & Hsome & Hreset).
      exists m', hl'. split; [done|]. split; [done|]. split; [|done].
      by apply Hdom1.
Qed.

(** X4. createStore returns a store only if every module it is given exists
    and has a handler map: a module object without [mutations] makes the
    assembly fail. *)
Theorem createStore_needs_handler_maps modules config a res a' :
  createStore modules config a = (Normal res, a') →
  Forall (λ entry, ∃ m hl,
            module_objs a !! entry.2 = Some m ∧ mod_mutations m = Some hl ∧
            is_Some (handler_maps (heap a) !! hl)) modules.
Proof.
  intros Hrun.
  apply createStore_normal in Hrun as (sagas & rl & a1 & w' & Hloop & _).
  apply forEach_injected in Hloop as (_ & _ & Hall).
  eapply Forall_impl; [exact Hall|]. cbn.
  intros entry (m & hl & Hm & Hmut & Hsome & _). by exists m, hl.
Qed.

Lemma createStore_needs_handler_maps_witness :
  ∃ res a',
    createStore [("counter", 1%positive)] Counter.no_config Counter.a0 =
      (Normal res, a') ∧
    ∃ m hl, module_objs Counter.a0 !! 1%positive = Some m ∧
            mod_mutations m = Some hl ∧
            is_Some (handler_maps (heap Counter.a0) !! hl).
Proof.
  destruct (createStore [("counter", 1%positive)] Counter.no_config Counter.a0)
    as [[res|e] a'] eqn:Hrun; [|vm_compute in Hrun; discriminate].
  exists res, a'. split; [reflexivity|].
  pose proof (createStore_needs_handler_maps _ _ _ _ _ Hrun) as Hall.
  by inversion Hall.
Defined.

(** X5. When the modules before it were taken in and a module has no
    [mutations], createStore throws the TypeError of the failed assignment.
    Nothing is rolled back: the module is already in the registry, and the
    handler maps of the modules before it keep the injected entry. *)
Theorem createStore_stops_at_module_without_mutations
    before moduleName l after config a sagas reducerList a1 m :
  forEach each_module ([], cfg_reducers config) before a =
    (Normal (sagas, reducerList), a1) →
  module_objs a !! l = Some m →
  mod_mutations m = None →
  createStore (before ++ (moduleName, l) :: after) config a =
    (Throw (TypeError "Cannot set property of undefined"),
     Assembly (heap a1) (module_objs a1) (<[moduleName := l]> (registry a1))) ∧
  Forall (λ entry, ∃ m' hl,
            module_objs a !! entry.2 = Some m' ∧ mod_mutations m' = Some hl ∧
            is_Some (lookup_method (heap a1) hl (reset_key None))) before.
Proof.
  intros Hloop Hm Hmut. split.
  - assert (Hstop : forEach each_module ([], cfg_reducers config)
                      (before ++ (moduleName, l) :: after) a =
                    (Throw (TypeError "Cannot set property of undefined"),
                     Assembly (heap a1) (module_objs a1)
                       (<[moduleName := l]> (registry a1)))).
    { rewrite forEach_app, Hloop.
      change (forEach each_module (sagas, reducerList) ((moduleName, l) :: after) a1)
        with (bind (each_module (sagas, reducerList) (moduleName, l))
                (λ acc', forEach each_module acc' after) a1).
      unfold bind.
      apply forEach_each_module in Hloop as (_ & Hmods & _).
      erewrite each_module_no_mutations; [done| |exact Hmut]. by rewrite Hmods. }
    unfold createStore, bind at 1. by rewrite Hstop.
  - apply forEach_injected in Hloop as (_ & _ & Hall).
    eapply Forall_impl; [exact Hall|]. cbn.
    intros entry (m' & hl & Hm' & Hmut' & _ & Hreset). by exists m', hl.
Qed.

Lemma createStore_stops_at_module_without_mutations_witness :
  ∃ a',
    createStore [("counter", 1%positive); ("bare", 2%positive)]
      Counter.no_config Counter.a0 =
      (Throw (TypeError "Cannot set property of undefined"), a') ∧
    registry a' !! "bare" = Some 2%positive ∧
    is_Some (lookup_method (heap a') 1%positive "undefined__RESET__").
Proof.
  destruct (forEach each_module ([], cfg_reducers Counter.no_config)
              [("counter", 1%positive)] Counter.a0) as [[[sagas rl]|e] a1] eqn:Hloop;
    [|vm_compute in Hloop; discriminate].
  destruct (createStore_stops_at_module_without_mutations
              [("counter", 1%positive)] "bare" 2%positive [] Counter.no_config
              Counter.a0 sagas rl a1 Counter.bare Hloop eq_refl eq_refl)
    as [Hrun Hall].
  eexists. split; [exact Hrun|]. split; [apply lookup_insert_eq|].
  inversion Hall as [|? ? (m' & hl & Hm' & Hmut' & Hreset) _]; subst.
  vm_compute in Hm'. injection Hm' as <-. injection Hmut' as <-. exact Hreset.
Defined.

End Loop.

Section Root.

Set Warnings "-clear-no-such-hyp".

Implicit Types (a : assembly) (w : world) (m : module).
Implicit Types (sagas : list jv) (reducerList : list (string * reducer)).











End Root.

Section Combined.

Set Warnings "-clear-no-such-hyp".

Implicit Types (a : assembly) (w : world) (m : module).
Implicit Types (state nextState : root_state).

(** Without an entry of its own for the type, a transition that returns
    hands back its state variable and has changed nothing: what the map
    inherits either throws or leaves the draft alone. *)
Lemma transition_unmatched l initialState prev act w v w' :
  lookup_method w l (type act) = None →
  transition l initialState prev act w = (Normal v, w') →
  v = default_state initialState prev ∧ w' = w.
Proof.
  intros Hnone. unfold transition.
  destruct (read_method w l (type act)) as [method|] eqn:Hread;
    [|by intros [= <- <-]].
  apply read_method_inherited in Hread as (p & _ & ->); [|done].
  unfold produce.
  destruct (snapshot w (default_state initialState prev)) as [d|]; [|done].
  destruct (call_inherited_run p d act) as [->|[e ->]]; cbn.
  - intros [= <- <-]. split; [done|]. apply set_console_nil.
  - unfold bind, log_all, modify, throw. cbn. done.
Qed.

(** The loop of the root reducer over reducers that getReducer built. *)
Lemma combination_transitions reducers :
  ∀ state act nextState hasChanged w nextState' hasChanged' w',
  Forall is_transition reducers → NoDup reducers.*1 →
  combination reducers state act nextState hasChanged w =
    (Normal (nextState', hasChanged'), w') →
  handler_maps w' = handler_maps w ∧
  (hasChanged = true → hasChanged' = true) ∧
  (∀ k, k ∉ reducers.*1 → nextState' !! k = nextState !! k) ∧
  ∀ key l initialState,
    (key, transition l initialState) ∈ reducers →
    lookup_method w l (type act) = None →
    nextState' !! key =
      Some (default_state initialState (default undefined (state !! key))) ∧
    default_state initialState (default undefined (state !! key)) ≠ undefined ∧
    (hasChanged' = false →
       default_state initialState (default undefined (state !! key)) =
       default undefined (state !! key)).
Proof.
  induction reducers as [|[key0 red0] rest IH];
    intros state act nextState hasChanged w nextState' hasChanged' w' Hall Hnd Hrun.
  - injection Hrun as <- <- <-. split; [done|]. split; [done|]. split; [done|].
    intros ? ? ? ?%elem_of_nil. done.
  - inversion Hall as [|? ? (l0 & init0 & Hred0) Hrest]; subst. cbn in Hred0.
    cbn in Hnd. apply NoDup_cons in Hnd as [Hnotin Hnd].
    cbn in Hrun. apply bind_normal in Hrun as (v0 & w1 & Hstep & Hrun).
    destruct (decide (v0 = undefined)) as [|Hdef]; [discriminate|].
    assert (Hmaps1 : handler_maps w1 = handler_maps w).
    { rewrite Hred0 in Hstep. by apply transition_frame in Hstep as [_ ?]. }
    apply IH in Hrun as (Hmaps & Hmono & Hother & Hrest'); [|done|done].
    split; [congruence|]. split.
    { intros ->. by apply Hmono. }
    split.
    { intros k Hk. cbn in Hk. rewrite Hother by set_solver.
      apply lookup_insert_ne. set_solver. }
    intros key l initialState Hin Hnone.
    apply elem_of_cons in Hin as [[= -> Heq]|Hin].
    + rewrite <- Heq in Hstep.
      apply transition_unmatched in Hstep as [-> ->]; [|done].
      split; [rewrite Hother by done; apply lookup_insert_eq|]. split; [done|].
      intros ->. destruct hasChanged; cbn in Hmono.
      * by specialize (Hmono eq_refl).
      * case_bool_decide as Hchg; [by specialize (Hmono eq_refl)|].
        exact Hchg.
    + apply (Hrest' key l initialState Hin). unfold lookup_method.
      by rewrite Hmaps1.
Qed.

Lemma combineReducers_transitions reducers state act w state' w' key l initialState :
  Forall is_transition reducers → NoDup reducers.*1 →
  combineReducers reducers state act w = (Normal state', w') →
  (key, transition l initialState) ∈ reducers →
  lookup_method w l (type act) = None →
  state' !! key =
    Some (default_state initialState (default undefined (state !! key))) ∧
  default_state initialState (default undefined (state !! key)) ≠ undefined.
Proof.
  intros Hall Hnd Hrun Hin Hnone. unfold combineReducers in Hrun.
  apply bind_normal in Hrun as ([ns hc] & w1 & Hloop & Hret).
  injection Hret as <- <-.
  apply combination_transitions in Hloop as (_ & _ & _ & Hkeys); [|done|done].
  destruct (Hkeys key l initialState Hin Hnone) as (Hns & Hdef & Hsame).
  split; [|done]. destruct hc; [done|].
  rewrite Hsame in Hdef |- * by done.
  destruct (state !! key) as [v|]; [done|]. by destruct Hdef.
Qed.

(** X7. In a store combined from module reducers, an action whose type is
    no key of a module's handler map leaves that module's sub-state as it
    was: the very reference the root state held before the dispatch. *)
Theorem unmatched_module_keeps_substate
    reducers state act w s' w' key l initialState v :
  Forall is_transition reducers → NoDup reducers.*1 →
  dispatch (Store (combineReducers reducers) state) act w = (Normal s', w') →
  (key, transition l initialState) ∈ reducers →
  lookup_method w l (type act) = None →
  state !! key = Some v → v ≠ undefined →
  currentState s' !! key = Some v.
Proof.
  intros Hall Hnd Hrun Hin Hnone Hv Hdef. unfold dispatch in Hrun.
  apply bind_normal in Hrun as (next & w1 & Hroot & Hret). cbn in Hroot.
  injection Hret as <- <-. cbn.
  destruct (combineReducers_transitions _ _ _ _ _ _ _ _ _ Hall Hnd Hroot Hin Hnone)
    as [-> _].
  rewrite Hv. cbn. f_equal. destruct v as [[]|]; try done.
Qed.

Lemma unmatched_module_keeps_substate_witness :
  ∃ s' w',
    dispatch (Store (combineReducers
                       [("counter", transition 1%positive (VRef 1%positive))])
                    {[ "counter" := VRef 1%positive ]})
      Orders.ADD_ITEM Counter.built.2 = (Normal s', w') ∧
    currentState s' !! "counter" = Some (VRef 1%positive).
Proof.
  destruct (dispatch (Store (combineReducers
                       [("counter", transition 1%positive (VRef 1%positive))])
                    {[ "counter" := VRef 1%positive ]})
              Orders.ADD_ITEM Counter.built.2) as [[s'|e] w'] eqn:Hrun;
    [|vm_compute in Hrun; discriminate].
  exists s', w'. split; [reflexivity|].
  apply (unmatched_module_keeps_substate
           [("counter", transition 1%positive (VRef 1%positive))]
           {[ "counter" := VRef 1%positive ]} Orders.ADD_ITEM Counter.built.2
           s' w' "counter" 1%positive (VRef 1%positive) (VRef 1%positive)).
  - repeat constructor. by exists 1%positive, (VRef 1%positive).
  - cbn. apply NoDup_singleton.
  - exact Hrun.
  - apply elem_of_cons. by left.
  - reflexivity.
  - reflexivity.
  - discriminate.
Defined.

End Combined.

Section Start.

Set Warnings "-clear-no-such-hyp".

Implicit Types (a : assembly) (w : world) (m : module).








End Start.

Section Routine.

Implicit Types (w : world) (sagas : list jv).

Lemma resume_all_spec sagas inputs : ∀ st w,
  let '(outs, _, w') := resume_all sagas st inputs w in
  same_heap w w' ∧
  (∀ e, In (Yield e) outs → e = All sagas) ∧
  match st with
  | NotStarted =>
      (yields outs ≤ 1)%nat ∧ (length (console w') ≤ S (length (console w)))%nat
  | AtYield =>
      yields outs = 0%nat ∧ (length (console w') ≤ S (length (console w)))%nat
  | Finished => yields outs = 0%nat ∧ console w' = console w
  end.
Proof.
  induction inputs as [|input rest IH]; intros st w.
  - cbn. split; [done|]. split; [by intros e []|]. destruct st; cbn; split; lia || done.
  - cbn. destruct (rootSaga sagas st input w) as [[out st1] w1] eqn:Hstep.
    specialize (IH st1 w1).
    destruct (resume_all sagas st1 rest w1) as [[outs st2] w2].
    destruct IH as ([Ho Hh] & Hyield & Hcount).
    destruct st, input; cbn in Hstep; injection Hstep as <- <- <-;
      cbn in Ho, Hh, Hcount |- *; unfold yields in Hcount |- *; cbn;
      (split; [by split|]);
      (split; [intros e [[= <-]|Hin]; (done || by apply Hyield) |]);
      destruct Hcount as [Hy Hc]; rewrite ?Hc, ?length_app in *; cbn in *;
      split; lia || done.
Qed.

(** X10. However the scheduler resumes it, and however often, the supervisor
    yields at most one effect, which is [all(sagas)], writes at most one
    entry to the console, and changes no state object and no handler map. *)
Theorem supervisor_yields_once sagas inputs w :
  let '(outs, _, w') := resume_all sagas NotStarted inputs w in
  (yields outs ≤ 1)%nat ∧
  (∀ e, In (Yield e) outs → e = All sagas) ∧
  (length (console w') ≤ S (length (console w)))%nat ∧
  same_heap w w'.
Proof.
  pose proof (resume_all_spec sagas inputs NotStarted w) as Hspec.
  destruct (resume_all sagas NotStarted inputs w) as [[outs st] w'].
  destruct Hspec as (Hheap & Hyield & Hy & Hc). done.
Qed.

End Routine.
